(** * Signing keys and detached file signatures of cargo-packager

    A shallow embedding of [crates/packager/src/sign.rs]: the base64 codec
    used for key and signature payloads, the key-pair persistence
    [save_keypair], the [SigningConfig] builder and the file signer
    [sign_file_with_secret_key].

    Modelling choices:
    - bytes are [Z] values in [0, 255]; a Rust [String]/[&str] is its
      UTF-8 byte sequence ([list Z]); a Unix path ([OsStr]) is an arbitrary
      byte sequence ([list Z]);
    - the file system is a map from paths to file contents plus a set of
      directories; an environment supplies the wall clock, the result of
      [dunce::canonicalize] and which system calls fail for reasons outside
      the model (permissions, full disk, ...);
    - the effectful functions run in a state-and-error monad whose state is
      the file system together with a trace of the system calls performed;
    - the signature library (minisign) is an abstract collaborator. *)

From Stdlib Require Import ZArith Lia List Ascii String.
From Stdlib Require Import DecimalN DecimalPos.
From stdpp Require Import base gmap sets list.
Import ListNotations.

Open Scope Z_scope.

(* ------------------------------------------------------------------ *)
(** ** Bytes, text and paths *)

Definition bytes := list Z.
Definition path := list Z.

(** The bytes of an ASCII string literal of the source. *)
Fixpoint lit (s : string) : bytes :=
  match s with
  | EmptyString => []
  | String c s' => Z.of_nat (nat_of_ascii c) :: lit s'
  end.

(** Decimal rendering of an unsigned integer, as [format!("{}", n)]. *)
Fixpoint uint_bytes (u : Decimal.uint) : bytes :=
  match u with
  | Decimal.Nil => []
  | Decimal.D0 u' => 48 :: uint_bytes u'
  | Decimal.D1 u' => 49 :: uint_bytes u'
  | Decimal.D2 u' => 50 :: uint_bytes u'
  | Decimal.D3 u' => 51 :: uint_bytes u'
  | Decimal.D4 u' => 52 :: uint_bytes u'
  | Decimal.D5 u' => 53 :: uint_bytes u'
  | Decimal.D6 u' => 54 :: uint_bytes u'
  | Decimal.D7 u' => 55 :: uint_bytes u'
  | Decimal.D8 u' => 56 :: uint_bytes u'
  | Decimal.D9 u' => 57 :: uint_bytes u'
  end.

Definition display_u64 (n : Z) : bytes := uint_bytes (N.to_uint (Z.to_N n)).

(* ------------------------------------------------------------------ *)
(** ** Errors *)

(** The file-system operations of the model. *)
Inductive fs_op :=
  | OpStat | OpRemove | OpCreate | OpWrite | OpFlush | OpOpenRead | OpRead | OpCanon.

(** [std::io::Error]: the kinds the model produces itself, and a failure
    injected by the environment for a given operation. *)
Inductive io_error :=
  | NotFound
  | IsADirectory
  | OsError (op : fs_op).

(** Errors of the signature library ([minisign::PError]). *)
Inductive minisign_error :=
  | MinisignIo
  | MinisignOther.

(** Modelled from the spec: [crate::Error] (error.rs is not under src/).
    The variants are those of the spec's error taxonomy that sign.rs
    constructs or reaches with [?]. A bare [?] on a [std::io::Error]
    goes through [From<std::io::Error>], which receives only the I/O
    error and no path: it is the variant [Io]. [?] on a
    [SystemTimeError], a [base64::DecodeError] and a [str::Utf8Error]
    give [SystemTime], [Base64Decode] and [Utf8]; [?] on a minisign
    error gives [Minisign]. *)
Inductive Error :=
  | SigningKeyExists (p : path)
  | FailedToExtractFilename (p : path)
  | IoWithPath (p : path) (e : io_error)
  | Io (e : io_error)
  | SystemTime
  | Base64Decode
  | Utf8
  | Minisign (e : minisign_error).

(** The spec's [InvalidEncoding] class: base64 and UTF-8 failures. *)
Definition is_invalid_encoding (e : Error) : bool :=
  match e with Base64Decode | Utf8 => true | _ => false end.

Inductive result (A : Type) :=
  | Ok (a : A)
  | Err (e : Error).
Arguments Ok {A} a.
Arguments Err {A} e.

(* ------------------------------------------------------------------ *)
(** ** File system, environment and the I/O monad *)

(** The system calls recorded in the trace. *)
Inductive event :=
  | EvRemove (p : path)
  | EvCreate (p : path)
  | EvWrite (p : path)
  | EvFlush (p : path)
  | EvClock
  | EvOpenRead (p : path)
  | EvSign
  | EvCanon (p : path).

Record fs := mkFs {
  files : gmap path bytes;
  dirs : gset path;
}.

Record env := mkEnv {
  (** [SystemTime::now()], in nanoseconds relative to the Unix epoch *)
  clock_nanos : Z;
  (** the canonical absolute form of an existing path *)
  canon : path -> path;
  (** the system calls that fail for reasons outside the model *)
  io_fails : fs_op -> path -> bool;
}.

Record world := mkWorld {
  w_fs : fs;
  w_trace : list event;
}.

Definition IO (A : Type) := world -> result A * world.

Definition ret {A} (a : A) : IO A := fun w => (Ok a, w).
Definition throw {A} (e : Error) : IO A := fun w => (Err e, w).
Definition bind {A B} (m : IO A) (k : A -> IO B) : IO B :=
  fun w => match m w with
           | (Ok a, w') => k a w'
           | (Err e, w') => (Err e, w')
           end.

Notation "x <- m ;; k" := (bind m (fun x => k))
  (at level 100, m at next level, right associativity).
Notation "m ;;; k" := (bind m (fun _ => k))
  (at level 100, right associativity).

(** Lift a pure [Result] with [?]. *)
Definition lift {A} (r : result A) : IO A := fun w => (r, w).

(** [map_err]: rewrap the error of an action. *)
Definition map_err {A} (f : Error -> Error) (m : IO A) : IO A :=
  fun w => match m w with
           | (Err e, w') => (Err (f e), w')
           | r => r
           end.

Definition log (ev : event) : IO unit :=
  fun w => (Ok tt, mkWorld (w_fs w) (w_trace w ++ [ev])).

Definition get_fs : IO fs := fun w => (Ok (w_fs w), w).
Definition set_files (m : gmap path bytes) : IO unit :=
  fun w => (Ok tt, mkWorld (mkFs m (dirs (w_fs w))) (w_trace w)).

Section Syscalls.
Variable E : env.

(** [Path::exists], i.e. [fs::metadata(p).is_ok()]: a [stat] of [p]. A
    [stat] that fails (for instance with [EACCES] under a parent
    directory that cannot be searched) reports [false], also for a file
    that exists. The [stat] reads nothing the trace records. *)
Definition path_exists (p : path) : IO bool :=
  st <- get_fs ;;
  ret (negb (io_fails E OpStat p) &&
       bool_decide (is_Some (files st !! p) \/ p ∈ dirs st)).

(** [std::fs::remove_file]; the I/O error is returned as it is. *)
Definition remove_file (p : path) : IO (result unit) :=
  log (EvRemove p) ;;;
  st <- get_fs ;;
  if io_fails E OpRemove p then ret (Err (Io (OsError OpRemove)))
  else if bool_decide (p ∈ dirs st) then ret (Err (Io IsADirectory))
  else match files st !! p with
       | None => ret (Err (Io NotFound))
       | Some _ => set_files (delete p (files st)) ;;; ret (Ok tt)
       end.

(** Modelled from the spec: [util::create_file] (util.rs is not under
    src/). It opens [p] for writing, creating the file or truncating an
    existing one, and reports a failure with the path attached,
    [IoWithPath(p, cause)]. The returned writer is the path itself. *)
Definition create_file (p : path) : IO path :=
  log (EvCreate p) ;;;
  st <- get_fs ;;
  if io_fails E OpCreate p then throw (IoWithPath p (OsError OpCreate))
  else if bool_decide (p ∈ dirs st) then throw (IoWithPath p IsADirectory)
  else set_files (<[p := []]> (files st)) ;;; ret p.

(** [write!]/[write_all] on the writer of [p]: append [s]; a failure is
    a plain [std::io::Error]. *)
Definition write_bytes (p : path) (s : bytes) : IO (result unit) :=
  log (EvWrite p) ;;;
  st <- get_fs ;;
  if io_fails E OpWrite p then ret (Err (Io (OsError OpWrite)))
  else set_files (<[p := default [] (files st !! p) ++ s]> (files st)) ;;;
       ret (Ok tt).

(** [flush] on the writer of [p]. *)
Definition flush (p : path) : IO (result unit) :=
  log (EvFlush p) ;;;
  if io_fails E OpFlush p then ret (Err (Io (OsError OpFlush)))
  else ret (Ok tt).

(** [OpenOptions::new().read(true).open(p)]; a directory opens, its
    contents are then unreadable ([None]). *)
Definition open_read (p : path) : IO (result (option bytes)) :=
  log (EvOpenRead p) ;;;
  st <- get_fs ;;
  if io_fails E OpOpenRead p then ret (Err (Io (OsError OpOpenRead)))
  else match files st !! p with
       | Some c => ret (Ok (Some c))
       | None => if bool_decide (p ∈ dirs st) then ret (Ok None)
                 else ret (Err (Io NotFound))
       end.

(** [dunce::canonicalize]. *)
Definition canonicalize (p : path) : IO (result path) :=
  log (EvCanon p) ;;;
  st <- get_fs ;;
  if io_fails E OpCanon p then ret (Err (Io (OsError OpCanon)))
  else if bool_decide (is_Some (files st !! p) \/ p ∈ dirs st)
  then ret (Ok (canon E p)) else ret (Err (Io NotFound)).

End Syscalls.

(** [?] on a [std::io::Result]: the error becomes [Error::Io] (an
    [Io] payload from the syscalls above is already that shape). *)
Definition try_io {A} (m : IO (result A)) : IO A :=
  r <- m ;; lift r.

(** [.map_err(|e| Error::IoWithPath(p, e))?]. *)
Definition io_with_path (p : path) (e : Error) : Error :=
  match e with Io ioe => IoWithPath p ioe | e => e end.

Definition try_with_path {A} (p : path) (m : IO (result A)) : IO A :=
  map_err (io_with_path p) (try_io m).

(* ------------------------------------------------------------------ *)
(** ** UTF-8 (core::str) *)

Definition in_range (lo hi b : Z) : bool := (lo <=? b) && (b <=? hi).
Definition is_cont (b : Z) : bool := in_range 128 191 b.

(** For a leading byte of a multi-byte sequence: the range allowed for
    the second byte and the number of continuation bytes after it
    (the table of [core::str::validations], which excludes overlong
    forms, surrogates and code points above U+10FFFF). *)
Definition lead_info (b0 : Z) : option (Z * Z * nat) :=
  if in_range 194 223 b0 then Some (128, 191, 0%nat)
  else if b0 =? 224 then Some (160, 191, 1%nat)
  else if in_range 225 236 b0 then Some (128, 191, 1%nat)
  else if b0 =? 237 then Some (128, 159, 1%nat)
  else if in_range 238 239 b0 then Some (128, 191, 1%nat)
  else if b0 =? 240 then Some (144, 191, 2%nat)
  else if in_range 241 243 b0 then Some (128, 191, 2%nat)
  else if b0 =? 244 then Some (128, 143, 2%nat)
  else None.

(** [str::from_utf8] succeeds. *)
Fixpoint utf8_valid (l : bytes) : bool :=
  match l with
  | [] => true
  | b0 :: r =>
    if b0 <? 128 then utf8_valid r else
    match lead_info b0, r with
    | Some (lo, hi, n), b1 :: r1 =>
      in_range lo hi b1 &&
      match n, r1 with
      | O, _ => utf8_valid r1
      | S O, b2 :: r2 => is_cont b2 && utf8_valid r2
      | S (S _), b2 :: b3 :: r3 => is_cont b2 && is_cont b3 && utf8_valid r3
      | _, _ => false
      end
    | _, _ => false
    end
  end.

(** U+FFFD REPLACEMENT CHARACTER. *)
Definition replacement : bytes := [239; 191; 189].

(** [String::from_utf8_lossy] / [OsStr::to_string_lossy]: each maximal
    prefix of an invalid sequence (at least one byte) is replaced by one
    U+FFFD. *)
Fixpoint to_string_lossy (l : bytes) : bytes :=
  match l with
  | [] => []
  | b0 :: r =>
    if b0 <? 128 then b0 :: to_string_lossy r else
    match lead_info b0 with
    | None => replacement ++ to_string_lossy r
    | Some (lo, hi, n) =>
      match r with
      | [] => replacement
      | b1 :: r1 =>
        if negb (in_range lo hi b1) then replacement ++ to_string_lossy r
        else match n with
        | O => [b0; b1] ++ to_string_lossy r1
        | S n' =>
          match r1 with
          | [] => replacement
          | b2 :: r2 =>
            if negb (is_cont b2) then replacement ++ to_string_lossy r1
            else match n' with
            | O => [b0; b1; b2] ++ to_string_lossy r2
            | S _ =>
              match r2 with
              | [] => replacement
              | b3 :: r3 =>
                if is_cont b3 then [b0; b1; b2; b3] ++ to_string_lossy r3
                else replacement ++ to_string_lossy r2
              end
            end
          end
        end
      end
    end
  end.

(* ------------------------------------------------------------------ *)
(** ** Paths (std::path on Unix) *)

Definition slash : Z := 47.

(** The components of a path: split at ['/'], empty and ["."]
    components dropped (a leading ["."] only matters as [CurDir], which
    is not a file name either). *)
Fixpoint split_slash (cur : bytes) (l : bytes) : list bytes :=
  match l with
  | [] => [rev cur]
  | b :: r => if b =? slash then rev cur :: split_slash [] r
              else split_slash (b :: cur) r
  end.

Definition components (p : path) : list bytes :=
  filter (fun c => negb (bool_decide (c = [])) && negb (bool_decide (c = [46])))
         (split_slash [] p).

(** [Path::file_name]: the last component, unless it is [".."] or the
    path has none (root, empty path). *)
Definition file_name (p : path) : option bytes :=
  match last (components p) with
  | Some c => if bool_decide (c = [46; 46]) then None else Some c
  | None => None
  end.

(** [path.display()] formats the path lossily. *)
Definition display (p : path) : bytes := to_string_lossy p.

(* ------------------------------------------------------------------ *)
(** ** Key persistence *)

(** A public and secret key pair (both fields base64 text). *)
Record KeyPair := mkKeyPair {
  pk : bytes;
  sk : bytes;
}.

Definition pubkey_path (p : path) : path := display p ++ lit ".pub".

Section SaveKeypair.
Variable E : env.

(** [save_keypair(keypair, path, force)]. *)
Definition save_keypair (keypair : KeyPair) (p : path) (force : bool)
    : IO (path * path) :=
  let pk_path := pubkey_path p in
  ex <- path_exists E p ;;
  (if ex then
     if negb force then throw (SigningKeyExists p)
     else try_with_path p (remove_file E p)
   else ret tt) ;;;
  pex <- path_exists E pk_path ;;
  (if pex then try_with_path pk_path (remove_file E pk_path) else ret tt) ;;;
  sk_writer <- create_file E p ;;
  try_io (write_bytes E sk_writer (sk keypair)) ;;;
  try_io (flush E sk_writer) ;;;
  pk_writer <- create_file E pk_path ;;
  try_io (write_bytes E pk_writer (pk keypair)) ;;;
  try_io (flush E pk_writer) ;;;
  c1 <- try_with_path p (canonicalize E p) ;;
  c2 <- try_with_path pk_path (canonicalize E pk_path) ;;
  ret (c1, c2).

End SaveKeypair.

(* ------------------------------------------------------------------ *)
(** ** Signing configuration *)

Record SigningConfig := mkSigningConfig {
  private_key : bytes;
  password : option bytes;
}.

(** [SigningConfig::new()], i.e. [Default::default()]. *)
Definition SigningConfig_new : SigningConfig := mkSigningConfig [] None.

(** [.private_key(s)]. *)
Definition set_private_key (c : SigningConfig) (s : bytes) : SigningConfig :=
  mkSigningConfig s (password c).

(** [.password(s)]: [self.password.replace(s)]. *)
Definition set_password (c : SigningConfig) (s : bytes) : SigningConfig :=
  mkSigningConfig (private_key c) (Some s).

(* ------------------------------------------------------------------ *)
(** ** Base64, [general_purpose::STANDARD] engine *)

(** The symbol of a 6-bit value: [A-Z a-z 0-9 + /]. *)
Definition b64_sym (v : Z) : Z :=
  if v <? 26 then 65 + v
  else if v <? 52 then 97 + (v - 26)
  else if v <? 62 then 48 + (v - 52)
  else if v =? 62 then 43 else 47.

(** The 6-bit value of a symbol; the padding ['='] has none. *)
Definition b64_val (c : Z) : option Z :=
  if in_range 65 90 c then Some (c - 65)
  else if in_range 97 122 c then Some (c - 97 + 26)
  else if in_range 48 57 c then Some (c - 48 + 52)
  else if c =? 43 then Some 62
  else if c =? 47 then Some 63
  else None.

Definition pad : Z := 61.

(** [STANDARD.encode]: three bytes to four symbols, a padded last quad. *)
Fixpoint b64_encode (l : bytes) : bytes :=
  match l with
  | a :: b :: c :: r =>
    [b64_sym (Z.shiftr a 2);
     b64_sym (Z.lor (Z.shiftl (Z.land a 3) 4) (Z.shiftr b 4));
     b64_sym (Z.lor (Z.shiftl (Z.land b 15) 2) (Z.shiftr c 6));
     b64_sym (Z.land c 63)] ++ b64_encode r
  | [a; b] =>
    [b64_sym (Z.shiftr a 2);
     b64_sym (Z.lor (Z.shiftl (Z.land a 3) 4) (Z.shiftr b 4));
     b64_sym (Z.shiftl (Z.land b 15) 2); pad]
  | [a] =>
    [b64_sym (Z.shiftr a 2); b64_sym (Z.shiftl (Z.land a 3) 4); pad; pad]
  | [] => []
  end.

(** [STANDARD.decode]: canonical padding required
    ([DecodePaddingMode::RequireCanonical]) and no trailing bits set in
    the last symbol ([decode_allow_trailing_bits = false]). *)
Fixpoint b64_decode (s : bytes) : option bytes :=
  match s with
  | [] => Some []
  | c1 :: c2 :: c3 :: c4 :: r =>
    match b64_val c1, b64_val c2 with
    | Some v1, Some v2 =>
      let x := Z.lor (Z.shiftl v1 2) (Z.shiftr v2 4) in
      match r, b64_val c3, b64_val c4 with
      | _, Some v3, Some v4 =>
        match b64_decode r with
        | Some rest =>
          Some ([x; Z.land (Z.lor (Z.shiftl v2 4) (Z.shiftr v3 2)) 255;
                 Z.land (Z.lor (Z.shiftl v3 6) v4) 255] ++ rest)
        | None => None
        end
      | [], Some v3, None =>
        if (c4 =? pad) && (Z.land v3 3 =? 0)
        then Some [x; Z.land (Z.lor (Z.shiftl v2 4) (Z.shiftr v3 2)) 255]
        else None
      | [], None, None =>
        if (c3 =? pad) && (c4 =? pad) && (Z.land v2 15 =? 0)
        then Some [x] else None
      | _, _, _ => None
      end
    | _, _ => None
    end
  | _ => None
  end.

(** [decode_base64(base64_key)]. *)
Definition decode_base64 (base64_key : bytes) : result bytes :=
  match b64_decode base64_key with
  | None => Err Base64Decode
  | Some decoded => if utf8_valid decoded then Ok decoded else Err Utf8
  end.

(* ------------------------------------------------------------------ *)
(** ** File signer *)

Definition nanos_per_sec : Z := 1000000000.

(** The trusted comment [format!("timestamp:{}\tfile:{}", secs, name)]. *)
Definition trusted_comment (secs : Z) (name : bytes) : bytes :=
  lit "timestamp:" ++ display_u64 secs ++ [9] ++ lit "file:" ++ name.

Definition untrusted_comment : bytes :=
  lit "signature from cargo-packager secret key".

(** Modelled from the spec: [PathExt::with_additional_extension]
    (util.rs is not under src/) appends the fixed [.sig] suffix;
    [dunce::simplified] only strips Windows verbatim prefixes and leaves
    the Unix paths of this model as they are. *)
Definition signature_path_of (p : path) : path := p ++ lit ".sig".

Section Signer.
Variable E : env.

(** The signature library: its secret keys, signature boxes,
    [minisign::sign(None, sk, reader, Some(trusted), Some(untrusted))]
    over the bytes read, and [SignatureBox::to_string]. *)
Variable SecretKey SignatureBox : Type.
Variable minisign_sign : SecretKey -> bytes -> bytes -> bytes -> SignatureBox.
Variable sigbox_to_string : SignatureBox -> bytes.

(** [SystemTime::now().duration_since(UNIX_EPOCH)?.as_secs()]. *)
Definition since_epoch_secs : IO Z :=
  log EvClock ;;;
  if clock_nanos E <? 0 then throw SystemTime
  else ret (clock_nanos E / nanos_per_sec).

(** [minisign::sign] reading the opened file: reading a directory fails
    (a minisign I/O error); the environment may fail the read. *)
Definition minisign_sign_reader (secret_key : SecretKey) (p : path)
    (contents : option bytes) (tc : bytes) : IO SignatureBox :=
  log EvSign ;;;
  match contents with
  | Some c =>
    if io_fails E OpRead p then throw (Minisign MinisignIo)
    else ret (minisign_sign secret_key c tc untrusted_comment)
  | None => throw (Minisign MinisignIo)
  end.

(** [sign_file_with_secret_key(secret_key, path)]. *)
Definition sign_file_with_secret_key (secret_key : SecretKey) (p : path)
    : IO (path * bytes) :=
  let signature_path := signature_path_of p in
  signature_box_writer <- create_file E signature_path ;;
  secs <- since_epoch_secs ;;
  name <- lift (match file_name p with
                | Some n => Ok n
                | None => Err (FailedToExtractFilename p)
                end) ;;
  let tc := trusted_comment secs (to_string_lossy name) in
  file <- try_with_path p (open_read E p) ;;
  signature_box <- minisign_sign_reader secret_key p file tc ;;
  let encoded_signature := b64_encode (sigbox_to_string signature_box) in
  try_io (write_bytes E signature_box_writer encoded_signature) ;;;
  try_io (flush E signature_box_writer) ;;;
  c <- try_with_path p (canonicalize E signature_path) ;;
  ret (c, encoded_signature).

End Signer.

(** Running an action from a file system with an empty trace. *)
Definition run {A} (m : IO A) (st : fs) : result A * world :=
  m (mkWorld st []).

(* ------------------------------------------------------------------ *)
(** ** Key generation *)

(** [?] on a [Result] of the signature library: its error becomes
    [Error::Minisign]. *)
Definition minisign_try {A} (r : minisign_error + A) : result A :=
  match r with
  | inl e => Err (Minisign e)
  | inr a => Ok a
  end.

(** [?] on a [crate::Result]. *)
Definition rbind {A B} (r : result A) (k : A -> result B) : result B :=
  match r with
  | Ok a => k a
  | Err e => Err e
  end.

Section Keys.

(** The signature library: key generation
    ([KeyPair::generate_encrypted_keypair(password)], which prompts for
    a password when it is [None] and draws the keys at random), and the
    key boxes with their [to_string]. *)
Variable PublicKey SecretKey PublicKeyBox SecretKeyBox : Type.
Variable generate_encrypted_keypair :
  option bytes -> minisign_error + (PublicKey * SecretKey).
Variable pk_to_box : PublicKey -> minisign_error + PublicKeyBox.
Variable sk_to_box : SecretKey -> minisign_error + SecretKeyBox.
Variable pkbox_to_string : PublicKeyBox -> bytes.
Variable skbox_to_string : SecretKeyBox -> bytes.

(** [generate_key(password)]. *)
Definition generate_key (password : option bytes) : result KeyPair :=
  rbind (minisign_try (generate_encrypted_keypair password)) (fun '(pk, sk) =>
  rbind (minisign_try (pk_to_box pk)) (fun pk_box =>
  rbind (minisign_try (sk_to_box sk)) (fun sk_box =>
  let pk_box_str := pkbox_to_string pk_box in
  let sk_box_str := skbox_to_string sk_box in
  let encoded_pk := b64_encode pk_box_str in
  let encoded_sk := b64_encode sk_box_str in
  Ok (mkKeyPair encoded_pk encoded_sk)))).

End Keys.
(* ------------------------------------------------------------------ *)
(** ** Auxiliary definitions for the proofs *)

(** Membership in a finite range of naturals, as integers: used to check
    byte-level identities exhaustively. *)
Definition zrange (n : nat) : list Z := map Z.of_nat (seq 0 n).

Definition is_byte (b : Z) : Prop := 0 <= b < 256.

Definition check_sym (v : Z) : bool :=
  match b64_val (b64_sym v) with Some w => w =? v | None => false end.

(** The six-bit groups of the encoder, checked over all bytes. *)
Definition sym1 (a : Z) : Z := Z.shiftr a 2.
Definition sym2 (a b : Z) : Z := Z.lor (Z.shiftl (Z.land a 3) 4) (Z.shiftr b 4).
Definition sym3 (b c : Z) : Z := Z.lor (Z.shiftl (Z.land b 15) 2) (Z.shiftr c 6).
Definition sym4 (c : Z) : Z := Z.land c 63.

Definition six (v : Z) : bool := (0 <=? v) && (v <? 64).

Definition check_ab (a b : Z) : bool :=
  six (sym1 a) && six (sym2 a b) &&
  (Z.lor (Z.shiftl (sym1 a) 2) (Z.shiftr (sym2 a b) 4) =? a) &&
  six (Z.shiftl (Z.land b 15) 2) && six (Z.shiftl (Z.land a 3) 4) &&
  (Z.land (Z.lor (Z.shiftl (sym2 a b) 4)
                 (Z.shiftr (Z.shiftl (Z.land b 15) 2) 2)) 255 =? b) &&
  (Z.land (Z.shiftl (Z.land b 15) 2) 3 =? 0) &&
  (Z.land (Z.shiftl (Z.land a 3) 4) 15 =? 0) &&
  (Z.lor (Z.shiftl (sym1 a) 2) (Z.shiftr (Z.shiftl (Z.land a 3) 4) 4) =? a).

Definition check_bc (b c : Z) : bool :=
  six (sym3 b c) && six (sym4 c) &&
  (Z.land (Z.lor (Z.shiftl (sym3 b c) 6) (sym4 c)) 255 =? c).

(** The middle byte only depends on the low two bits of [a] and the high
    two bits of [c]. *)
Definition check_mid (a2 b c2 : Z) : bool :=
  Z.land (Z.lor (Z.shiftl (Z.lor (Z.shiftl a2 4) (Z.shiftr b 4)) 4)
                (Z.shiftr (Z.lor (Z.shiftl (Z.land b 15) 2) c2) 2)) 255 =? b.

(** An action changes no file outside [ps] and no directory. *)
Definition frames {A} (ps : list path) (m : IO A) : Prop :=
  forall w, dirs (w_fs (snd (m w))) = dirs (w_fs w) /\
            forall q, q ∉ ps -> files (w_fs (snd (m w))) !! q = files (w_fs w) !! q.

Definition no_io_failures (E : env) : Prop := forall op q, io_fails E op q = false.

Definition upd_files (w : world) (m : gmap path bytes) (ev : event) : world :=
  mkWorld (mkFs m (dirs (w_fs w))) (w_trace w ++ [ev]).

Definition logged (w : world) (ev : event) : world :=
  mkWorld (w_fs w) (w_trace w ++ [ev]).

(** Runs of [sign_file_with_secret_key] from a file system, with the
    signature it is expected to write. *)
Section SignRunDefs.
Variable E : env.
Variable SK SB : Type.
Variable msign : SK -> bytes -> bytes -> bytes -> SB.
Variable tostr : SB -> bytes.

Definition sign_run (secret : SK) (p : path) (st : fs) :=
  run (sign_file_with_secret_key E SK SB msign tostr secret p) st.

(** The encoded signature over [c] with the trusted comment of [name]. *)
Definition expected_signature (secret : SK) (c name : bytes) : bytes :=
  b64_encode (tostr (msign secret c
    (trusted_comment (clock_nanos E / nanos_per_sec) (to_string_lossy name))
    untrusted_comment)).

End SignRunDefs.

(** [format!("{}", n)] of a [u64] is a non-empty run of decimal digits. *)
Definition decimal_digits (l : bytes) : bool :=
  negb (bool_decide (l = [])) && forallb (in_range 48 57) l.

(** Concrete inputs. *)
Definition env_ok : env :=
  mkEnv 1700000000123456789 (fun q => q) (fun _ _ => false).
Definition env_later : env :=
  mkEnv 1700000060000000000 (fun q => q) (fun _ _ => false).
(** A disk that is full: every write fails (ENOSPC). *)
Definition env_disk_full : env :=
  mkEnv 1700000000123456789 (fun q => q)
        (fun op _ => match op with OpWrite => true | _ => false end).
(** [canonicalize] fails (the [.sig] file was removed in between). *)
Definition env_canon_fails : env :=
  mkEnv 1700000000123456789 (fun q => q)
        (fun op _ => match op with OpCanon => true | _ => false end).
(** A stand-in signature library: the box is the trusted comment
    followed by the signed bytes. *)
Definition demo_sign (_ : unit) (c tc _ : bytes) : bytes := tc ++ c.
Definition st_empty : fs := mkFs ∅ ∅.
Definition st_app : fs := mkFs {[ lit "app.exe" := lit "MZ" ]} ∅.
Definition odd_name : path := lit "dist/" ++ [97; 255].
Definition st_odd : fs := mkFs {[ odd_name := lit "MZ" ]} ∅.
Definition kp1 : KeyPair := mkKeyPair (lit "cGsx") (lit "c2sx").
Definition kp2 : KeyPair := mkKeyPair (lit "cGsy") (lit "c2sy").
(** A directory [keys] that cannot be searched: every system call on a
    path under it fails ([EACCES]). *)
Definition env_no_search : env :=
  mkEnv 1700000000123456789 (fun q => q)
        (fun _ q => bool_decide (take 5 q = lit "keys/")).
Definition st_keys : fs := mkFs {[ lit "keys/key" := lit "c2sx" ]} {[ lit "keys" ]}.

(** A stand-in key library: every key and box is [tt], and the boxes
    print as fixed minisign-style strings. *)
Definition demo_pk_box : bytes := lit "untrusted comment: minisign public key 1".
Definition demo_sk_box : bytes := lit "untrusted comment: minisign secret key 1".
Definition demo_gen (_ : option bytes) : minisign_error + (unit * unit) := inr (tt, tt).
Definition demo_to_box (_ : unit) : minisign_error + unit := inr tt.
Definition demo_pk_string (_ : unit) : bytes := demo_pk_box.
Definition demo_sk_string (_ : unit) : bytes := demo_sk_box.


(** A signature box printed as a fixed string. *)
Definition demo_sig_string (_ : bytes) : bytes :=
  lit "untrusted comment: signature from cargo-packager secret key".
Definition st_dir : fs := mkFs ∅ {[ lit "dist" ]}.
Definition st_sigdir : fs := mkFs {[ lit "app.exe" := lit "MZ" ]} {[ lit "app.exe.sig" ]}.
Definition st_oldpub : fs := mkFs {[ lit "key.pub" := lit "old" ]} ∅.
(* ================================================================== *)
(** * Properties *)


Lemma zrange_spec (n : nat) (f : Z -> bool) :
  forallb f (zrange n) = true -> forall x, 0 <= x < Z.of_nat n -> f x = true.
Proof.
  intros Hall x Hx.
  apply forallb_forall with (x := x) in Hall; [exact Hall|].
  unfold zrange. apply in_map_iff. exists (Z.to_nat x).
  split; [lia|]. apply in_seq. lia.
Qed.


(* ------------------------------------------------------------------ *)
(** ** Base64 round trip *)


Lemma check_sym_all : forallb check_sym (zrange 64) = true.
Proof. vm_compute. reflexivity. Qed.

Lemma b64_val_sym (v : Z) : 0 <= v < 64 -> b64_val (b64_sym v) = Some v.
Proof.
  intros Hv. pose proof (zrange_spec _ _ check_sym_all v ltac:(unfold is_byte in *; simpl; lia)) as H.
  unfold check_sym in H. destruct (b64_val (b64_sym v)); [|discriminate].
  apply Z.eqb_eq in H. subst. reflexivity.
Qed.

Lemma b64_val_pad : b64_val pad = None.
Proof. reflexivity. Qed.


Lemma check_ab_all :
  forallb (fun a => forallb (check_ab a) (zrange 256)) (zrange 256) = true.
Proof. vm_compute. reflexivity. Qed.

Lemma check_bc_all :
  forallb (fun b => forallb (check_bc b) (zrange 256)) (zrange 256) = true.
Proof. vm_compute. reflexivity. Qed.

Lemma check_mid_all :
  forallb (fun a2 => forallb (fun b => forallb (check_mid a2 b) (zrange 4))
                       (zrange 256)) (zrange 4) = true.
Proof. vm_compute. reflexivity. Qed.

Lemma check_ab_ok (a b : Z) : is_byte a -> is_byte b -> check_ab a b = true.
Proof.
  intros Ha Hb.
  pose proof (zrange_spec _ _ check_ab_all a ltac:(unfold is_byte in *; simpl; lia)) as H.
  exact (zrange_spec _ _ H b ltac:(unfold is_byte in *; simpl; lia)).
Qed.

Lemma check_bc_ok (b c : Z) : is_byte b -> is_byte c -> check_bc b c = true.
Proof.
  intros Hb Hc.
  pose proof (zrange_spec _ _ check_bc_all b ltac:(unfold is_byte in *; simpl; lia)) as H.
  exact (zrange_spec _ _ H c ltac:(unfold is_byte in *; simpl; lia)).
Qed.

Lemma land3_range (a : Z) : 0 <= a -> 0 <= Z.land a 3 < 4.
Proof.
  intros Ha. change 3 with (Z.ones 2). rewrite Z.land_ones by lia.
  apply Z.mod_pos_bound. lia.
Qed.

Lemma shiftr6_range (c : Z) : is_byte c -> 0 <= Z.shiftr c 6 < 4.
Proof.
  intros Hc. rewrite Z.shiftr_div_pow2 by lia. unfold is_byte in Hc.
  change (2 ^ 6) with 64. split; [apply Z.div_pos; lia|].
  apply Z.div_lt_upper_bound; lia.
Qed.

Lemma check_mid_ok (a b c : Z) :
  is_byte a -> is_byte b -> is_byte c ->
  check_mid (Z.land a 3) b (Z.shiftr c 6) = true.
Proof.
  intros Ha Hb Hc.
  pose proof (land3_range a ltac:(unfold is_byte in Ha; lia)) as Ha2.
  pose proof (shiftr6_range c Hc) as Hc2.
  pose proof (zrange_spec _ _ check_mid_all (Z.land a 3) ltac:(unfold is_byte in *; simpl; lia)) as H.
  pose proof (zrange_spec _ _ H b ltac:(unfold is_byte in Hb; simpl; lia)) as H'.
  exact (zrange_spec _ _ H' (Z.shiftr c 6) ltac:(unfold is_byte in *; simpl; lia)).
Qed.

Ltac bool_facts :=
  repeat match goal with
  | H : (_ && _)%bool = true |- _ => apply andb_prop in H; destruct H
  | H : (_ =? _) = true |- _ => apply Z.eqb_eq in H
  | H : six _ = true |- _ =>
      unfold six in H; apply andb_prop in H; destruct H as [?%Z.leb_le ?%Z.ltb_lt]
  end.

Ltac rewrite_facts :=
  repeat match goal with
  | H : ?x = _ |- context [?x] => progress rewrite H
  end.

Lemma b64_roundtrip (l : bytes) :
  Forall is_byte l -> b64_decode (b64_encode l) = Some l.
Proof.
  intros Hl. remember (length l) as n eqn:Hn. revert l Hl Hn.
  induction n as [n IH] using lt_wf_ind. intros l Hl Hn.
  destruct l as [|a [|b [|c r]]]; [reflexivity| | |].
  - inversion Hl as [|? ? Ha _]; subst.
    pose proof (check_ab_ok a 0 Ha ltac:(unfold is_byte; lia)) as H.
    unfold check_ab, sym1, sym2 in H. bool_facts.
    simpl. rewrite !b64_val_sym by lia. simpl.
    rewrite_facts. reflexivity.
  - inversion Hl as [|? ? Ha Hl']; inversion Hl' as [|? ? Hb _]; subst.
    pose proof (check_ab_ok a b Ha Hb) as H.
    unfold check_ab, sym1, sym2 in H. bool_facts.
    simpl. rewrite !b64_val_sym by lia. simpl.
    rewrite_facts. reflexivity.
  - inversion Hl as [|? ? Ha Hl']; inversion Hl' as [|? ? Hb Hl''];
      inversion Hl'' as [|? ? Hc Hr]; subst.
    pose proof (check_ab_ok a b Ha Hb) as H1.
    pose proof (check_bc_ok b c Hb Hc) as H2.
    pose proof (check_mid_ok a b c Ha Hb Hc) as H3.
    unfold check_ab, check_bc, check_mid, sym1, sym2, sym3, sym4 in *. bool_facts.
    cbn [b64_encode app b64_decode].
    rewrite !b64_val_sym by lia.
    rewrite (IH (length r)) by (simpl; lia || auto).
    rewrite_facts. destruct (b64_encode r); reflexivity.
Qed.

(** UTF-8 validity never looks at anything but the bytes themselves:
    [decode_base64] fails exactly on a base64 error or a UTF-8 error. *)
Lemma decode_base64_err (s : bytes) (e : Error) :
  decode_base64 s = Err e ->
  (e = Base64Decode /\ b64_decode s = None) \/
  (e = Utf8 /\ exists b, b64_decode s = Some b /\ utf8_valid b = false).
Proof.
  unfold decode_base64. destruct (b64_decode s) as [b|]; intros H.
  - destruct (utf8_valid b) eqn:Hv; inversion H; subst. right. eauto.
  - inversion H. auto.
Qed.

(* ------------------------------------------------------------------ *)
(** ** Claims *)

(** C5: for every text [t] (a valid UTF-8 byte sequence),
    [decode_base64(encode(t)) = Ok t]; and [decode_base64] fails, with an
    error of the InvalidEncoding class, exactly when its input is not
    canonical base64 or the decoded bytes are not valid UTF-8. The
    function is pure: it has no effect to perform. *)
Theorem decode_base64_spec :
  (forall t : bytes, Forall is_byte t -> utf8_valid t = true ->
     decode_base64 (b64_encode t) = Ok t) /\
  (forall s : bytes,
     (exists e, decode_base64 s = Err e) <->
     (b64_decode s = None \/
      exists b, b64_decode s = Some b /\ utf8_valid b = false)) /\
  (forall (s : bytes) (e : Error),
     decode_base64 s = Err e -> is_invalid_encoding e = true).
Proof.
  split; [|split].
  - intros t Ht Hv. unfold decode_base64. rewrite b64_roundtrip by exact Ht.
    rewrite Hv. reflexivity.
  - intros s. split.
    + intros [e He]. apply decode_base64_err in He as [[_ H]|[_ H]]; auto.
    + unfold decode_base64. intros [H|[b [H Hv]]]; rewrite H; [eauto|].
      rewrite Hv. eauto.
  - intros s e He. apply decode_base64_err in He as [[-> _]|[-> _]]; reflexivity.
Qed.

(** C8: [SigningConfig::new()] is [{ private_key: "", password: None }],
    built with no check; [.private_key(s)] sets the key and keeps the
    password; [.password(s)] sets the password to [Some(s)] and keeps the
    key. *)
Theorem signing_config_builder :
  SigningConfig_new = mkSigningConfig [] None /\
  (forall (c : SigningConfig) (s : bytes),
     private_key (set_private_key c s) = s /\
     password (set_private_key c s) = password c) /\
  (forall (c : SigningConfig) (s : bytes),
     password (set_password c s) = Some s /\
     private_key (set_password c s) = private_key c).
Proof. repeat split. Qed.

(** C2 (as amended): when the secret-key file at [path] exists and its
    [stat] succeeds (so [path.exists()] is [true]) and [force = false],
    [save_keypair] fails with [SigningKeyExists(path)], makes no system
    call beyond that [stat] and leaves the file system as it was. *)
Theorem save_keypair_no_force (E : env) (kp : KeyPair) (p : path) (st : fs) :
  io_fails E OpStat p = false ->
  (is_Some (files st !! p) \/ p ∈ dirs st) ->
  run (save_keypair E kp p false) st =
    (Err (SigningKeyExists p), mkWorld st []).
Proof.
  intros Hstat Hex. unfold run, save_keypair, path_exists, get_fs, bind, ret, throw.
  simpl. rewrite Hstat. simpl. rewrite bool_decide_eq_true_2 by exact Hex. reflexivity.
Qed.

(* ------------------------------------------------------------------ *)
(** ** Lossy UTF-8 conversion *)

Lemma lossy_length (l : bytes) :
  (length l <= length (to_string_lossy l))%nat.
Proof.
  remember (length l) as n eqn:Hn. revert l Hn.
  induction n as [n IH] using lt_wf_ind. intros l Hn; subst n.
  destruct l as [|b0 r]; [simpl; lia|].
  cbn [to_string_lossy].
  repeat case_match; subst;
  repeat match goal with
  | |- context [to_string_lossy ?x] =>
      lazymatch goal with
      | _ : (length x <= length (to_string_lossy x))%nat |- _ => fail
      | _ => pose proof (IH (length x) ltac:(subst; simpl; lia) x eq_refl)
      end
  end;
  simpl in *; rewrite ?length_app; simpl; lia.
Qed.

Lemma lossy_valid (l : bytes) :
  utf8_valid l = true -> to_string_lossy l = l.
Proof.
  remember (length l) as n eqn:Hn. revert l Hn.
  induction n as [n IH] using lt_wf_ind. intros l Hn Hv; subst n.
  destruct l as [|b0 r]; [reflexivity|].
  cbn [to_string_lossy]. cbn [utf8_valid] in Hv.
  repeat case_match; subst; simpl in *;
  repeat match goal with
  | H : (_ && _)%bool = true |- _ => apply andb_prop in H; destruct H
  | H : negb _ = true |- _ => apply negb_true_iff in H
  end; try congruence;
  repeat match goal with
  | |- context [to_string_lossy ?x] =>
      rewrite (IH (length x) ltac:(simpl; lia) x eq_refl) by assumption
  end; reflexivity.
Qed.

(** [format!("{}.pub", path.display())] never names the secret-key file
    itself: the lossy display of a path is never shorter than it. *)
Lemma pubkey_path_ne (p : path) : pubkey_path p <> p.
Proof.
  intros H. pose proof (lossy_length p) as Hl.
  apply (f_equal (@length Z)) in H. unfold pubkey_path, display in H.
  rewrite length_app in H. simpl in H. lia.
Qed.

Lemma signature_path_ne (p : path) : signature_path_of p <> p.
Proof.
  intros H. apply (f_equal (@length Z)) in H. unfold signature_path_of in H.
  rewrite length_app in H. simpl in H. lia.
Qed.

(* ------------------------------------------------------------------ *)
(** ** Step lemmas for the I/O monad *)


Lemma bind_step {A B} (m : IO A) (k : A -> IO B) (w w' : world) (a : A) :
  m w = (Ok a, w') -> bind m k w = k a w'.
Proof. unfold bind. intros ->. reflexivity. Qed.

Lemma bind_stop {A B} (m : IO A) (k : A -> IO B) (w w' : world) (e : Error) :
  m w = (Err e, w') -> bind m k w = (Err e, w').
Proof. unfold bind. intros ->. reflexivity. Qed.

Lemma path_exists_eq (E : env) (p : path) (w : world) :
  no_io_failures E ->
  path_exists E p w =
    (Ok (bool_decide (is_Some (files (w_fs w) !! p) \/ p ∈ dirs (w_fs w))), w).
Proof. intros Hio. unfold path_exists, get_fs, bind, ret. simpl. rewrite Hio. reflexivity. Qed.

Section Steps.
Variable E : env.
Hypothesis Hio : no_io_failures E.

Lemma remove_file_ok (p : path) (w : world) :
  p ∉ dirs (w_fs w) -> is_Some (files (w_fs w) !! p) ->
  remove_file E p w =
    (Ok (Ok tt), upd_files w (delete p (files (w_fs w))) (EvRemove p)).
Proof.
  intros Hd [v Hv]. unfold remove_file, bind, log, get_fs, set_files, ret.
  simpl. rewrite Hio, bool_decide_eq_false_2 by exact Hd. rewrite Hv.
  reflexivity.
Qed.

Lemma create_file_ok (p : path) (w : world) :
  p ∉ dirs (w_fs w) ->
  create_file E p w = (Ok p, upd_files w (<[p := []]> (files (w_fs w))) (EvCreate p)).
Proof.
  intros Hd. unfold create_file, bind, log, get_fs, set_files, ret.
  simpl. rewrite Hio, bool_decide_eq_false_2 by exact Hd. reflexivity.
Qed.

Lemma write_bytes_ok (p : path) (s : bytes) (w : world) :
  write_bytes E p s w =
    (Ok (Ok tt),
     upd_files w (<[p := default [] (files (w_fs w) !! p) ++ s]> (files (w_fs w)))
       (EvWrite p)).
Proof.
  unfold write_bytes, bind, log, get_fs, set_files, ret. simpl.
  rewrite Hio. reflexivity.
Qed.

Lemma flush_ok (p : path) (w : world) :
  flush E p w = (Ok (Ok tt), logged w (EvFlush p)).
Proof. unfold flush, bind, log, ret. simpl. rewrite Hio. reflexivity. Qed.

Lemma canonicalize_ok (p : path) (w : world) :
  is_Some (files (w_fs w) !! p) ->
  canonicalize E p w = (Ok (Ok (canon E p)), logged w (EvCanon p)).
Proof.
  intros Hp. unfold canonicalize, bind, log, get_fs, ret. simpl.
  rewrite Hio, bool_decide_eq_true_2 by (left; exact Hp). reflexivity.
Qed.

Lemma open_read_ok (p : path) (c : bytes) (w : world) :
  files (w_fs w) !! p = Some c ->
  open_read E p w = (Ok (Ok (Some c)), logged w (EvOpenRead p)).
Proof.
  intros Hp. unfold open_read, bind, log, get_fs, ret. simpl.
  rewrite Hio, Hp. reflexivity.
Qed.

End Steps.

Lemma try_io_ok {A} (m : IO (result A)) (w w' : world) (a : A) :
  m w = (Ok (Ok a), w') -> try_io m w = (Ok a, w').
Proof. unfold try_io, bind, lift. intros ->. reflexivity. Qed.

Lemma try_with_path_ok {A} (p : path) (m : IO (result A)) (w w' : world) (a : A) :
  m w = (Ok (Ok a), w') -> try_with_path p m w = (Ok a, w').
Proof.
  unfold try_with_path, map_err. intros H. rewrite (try_io_ok _ _ _ _ H).
  reflexivity.
Qed.

Ltac io_step L :=
  erewrite bind_step; [cbv beta | L].

Lemma save_keypair_run (E : env) (kp : KeyPair) (p : path) (force : bool)
    (st : fs) (tr : list event) :
  no_io_failures E -> p ∉ dirs st -> pubkey_path p ∉ dirs st ->
  (is_Some (files st !! p) -> force = true) ->
  save_keypair E kp p force (mkWorld st tr) =
    (Ok (canon E p, canon E (pubkey_path p)),
     mkWorld (mkFs (<[pubkey_path p := pk kp]> (<[p := sk kp]> (files st)))
                   (dirs st))
       (tr ++ (if bool_decide (is_Some (files st !! p)) then [EvRemove p] else [])
           ++ (if bool_decide (is_Some (files st !! pubkey_path p))
               then [EvRemove (pubkey_path p)] else [])
           ++ [EvCreate p; EvWrite p; EvFlush p;
               EvCreate (pubkey_path p); EvWrite (pubkey_path p);
               EvFlush (pubkey_path p);
               EvCanon p; EvCanon (pubkey_path p)])).
Proof.
  intros Hio Hp Hpk Hforce.
  pose proof (pubkey_path_ne p) as Hne.
  destruct st as [m d]; simpl in *.
  set (q := pubkey_path p) in *.
  unfold save_keypair. fold q.
  io_step ltac:(apply path_exists_eq; exact Hio). simpl.
  (* the overwrite guard *)
  assert (Hg : exists m1, ((if bool_decide (is_Some (m !! p) \/ p ∈ d)
     then if negb force then throw (SigningKeyExists p)
          else try_with_path p (remove_file E p)
     else ret ()) (mkWorld (mkFs m d) tr) =
     (Ok tt, mkWorld (mkFs m1 d)
        (tr ++ if bool_decide (is_Some (m !! p)) then [EvRemove p] else [])))
     /\ m1 = delete p m).
  { destruct (decide (is_Some (m !! p))) as [Hs|Hs].
    - rewrite (bool_decide_eq_true_2 (is_Some (m !! p) \/ p ∈ d)) by eauto.
      rewrite (bool_decide_eq_true_2 (is_Some (m !! p))) by eauto.
      rewrite Hforce by eauto. simpl.
      eexists. split; [|reflexivity].
      erewrite try_with_path_ok; [|apply remove_file_ok; simpl; eauto].
      reflexivity.
    - rewrite (bool_decide_eq_false_2 (is_Some (m !! p) \/ p ∈ d)) by tauto.
      rewrite (bool_decide_eq_false_2 (is_Some (m !! p))) by tauto.
      eexists. split; [unfold ret; rewrite app_nil_r; reflexivity|].
      rewrite delete_id by (apply eq_None_not_Some; exact Hs). reflexivity. }
  destruct Hg as [m1 [Hg ->]].
  io_step ltac:(exact Hg).
  set (tr1 := tr ++ _).
  io_step ltac:(apply path_exists_eq; exact Hio). simpl.
  rewrite lookup_delete_ne by congruence.
  assert (Hg2 : ((if bool_decide (is_Some (m !! q) \/ q ∈ d)
     then try_with_path q (remove_file E q) else ret ())
     (mkWorld (mkFs (delete p m) d) tr1) =
     (Ok tt, mkWorld (mkFs (delete q (delete p m)) d)
        (tr1 ++ if bool_decide (is_Some (m !! q)) then [EvRemove q] else [])))).
  { destruct (decide (is_Some (m !! q))) as [Hs|Hs].
    - rewrite (bool_decide_eq_true_2 (is_Some (m !! q) \/ q ∈ d)) by eauto.
      rewrite (bool_decide_eq_true_2 (is_Some (m !! q))) by eauto.
      erewrite try_with_path_ok; [reflexivity|].
      apply remove_file_ok; simpl; [exact Hio|exact Hpk|].
      rewrite lookup_delete_ne by congruence. exact Hs.
    - rewrite (bool_decide_eq_false_2 (is_Some (m !! q) \/ q ∈ d)) by tauto.
      rewrite (bool_decide_eq_false_2 (is_Some (m !! q))) by tauto.
      rewrite (delete_id (delete p m) q); [unfold ret; rewrite app_nil_r; reflexivity|].
      rewrite lookup_delete_ne by congruence. apply eq_None_not_Some. exact Hs. }
  io_step ltac:(exact Hg2).
  set (tr2 := tr1 ++ _).
  io_step ltac:(apply create_file_ok; [exact Hio|exact Hp]). simpl.
  io_step ltac:(apply try_io_ok, write_bytes_ok; exact Hio). simpl.
  io_step ltac:(apply try_io_ok, flush_ok; exact Hio). simpl.
  io_step ltac:(apply create_file_ok; [exact Hio|exact Hpk]). simpl.
  io_step ltac:(apply try_io_ok, write_bytes_ok; exact Hio). simpl.
  io_step ltac:(apply try_io_ok, flush_ok; exact Hio). simpl.
  io_step ltac:(apply try_with_path_ok, canonicalize_ok; [exact Hio|]; simpl;
                repeat (rewrite lookup_insert_ne by congruence);
                rewrite lookup_insert_eq; eauto).
  simpl.
  io_step ltac:(apply try_with_path_ok, canonicalize_ok; [exact Hio|]; simpl;
                rewrite lookup_insert_eq; eauto).
  unfold ret, upd_files, logged, tr2, tr1; simpl.
  simpl. f_equal. f_equal.
  - f_equal. apply map_eq. intros i.
    destruct (decide (i = q)); [subst; rewrite !lookup_insert_eq; reflexivity|].
    rewrite !(lookup_insert_ne _ q i) by congruence.
    destruct (decide (i = p)); [subst; rewrite !lookup_insert_eq; reflexivity|].
    rewrite !lookup_insert_ne, lookup_delete_ne, lookup_delete_ne by congruence.
    reflexivity.
  - rewrite <- !app_assoc. reflexivity.
Qed.

(* ------------------------------------------------------------------ *)
(** ** Runs of [sign_file_with_secret_key] *)

Ltac unfold_sign :=
  unfold run, sign_file_with_secret_key, since_epoch_secs,
    minisign_sign_reader, create_file, write_bytes,
    flush, open_read, canonicalize, try_with_path, try_io, map_err, lift,
    log, get_fs, set_files, bind, ret, throw; simpl.

Ltac split_run :=
  repeat (case_match; simpl in *; simplify_eq/=).

Section SignRuns.
Variable E : env.
Variable SK SB : Type.
Variable msign : SK -> bytes -> bytes -> bytes -> SB.
Variable tostr : SB -> bytes.


Lemma sign_run_ok (secret : SK) (p : path) (st : fs) (name c : bytes) :
  no_io_failures E -> 0 <= clock_nanos E ->
  signature_path_of p ∉ dirs st ->
  file_name p = Some name -> files st !! p = Some c ->
  sign_run E SK SB msign tostr secret p st =
    (Ok (canon E (signature_path_of p), expected_signature E SK SB msign tostr secret c name),
     mkWorld (mkFs (<[signature_path_of p := expected_signature E SK SB msign tostr secret c name]>
                      (files st)) (dirs st))
       [EvCreate (signature_path_of p); EvClock; EvOpenRead p; EvSign;
        EvWrite (signature_path_of p); EvFlush (signature_path_of p);
        EvCanon (signature_path_of p)]).
Proof.
  intros Hio Hclk Hd Hn Hc.
  pose proof (signature_path_ne p) as Hne.
  destruct st as [m d]; simpl in *.
  unfold sign_run, expected_signature. unfold_sign.
  repeat first [ rewrite Hio | rewrite bool_decide_eq_false_2 by exact Hd
               | rewrite (proj2 (Z.ltb_ge _ _) Hclk) | rewrite Hn
               | rewrite lookup_insert_ne by congruence | rewrite Hc
               | rewrite lookup_insert_eq
               | rewrite bool_decide_eq_true_2 by (left; eauto)
               | progress simpl ].
  rewrite insert_insert_eq. reflexivity.
Qed.

End SignRuns.


Lemma uint_bytes_digits (u : Decimal.uint) :
  forallb (in_range 48 57) (uint_bytes u) = true.
Proof. induction u; simpl; auto. Qed.

Lemma display_u64_digits (n : Z) : decimal_digits (display_u64 n) = true.
Proof.
  unfold decimal_digits, display_u64. rewrite uint_bytes_digits, andb_true_r.
  apply negb_true_iff, bool_decide_eq_false_2.
  destruct (Z.to_N n) as [|q]; simpl; [discriminate|].
  pose proof (DecimalPos.Unsigned.to_uint_nonnil q) as H.
  destruct (Pos.to_uint q); simpl; congruence.
Qed.

(** C6: with [force = true] and no failing system call, [save_keypair]
    removes the secret-key file if present, then the [.pub] file if
    present, then creates and writes the secret key at [path] and the
    public key at [path.display() + ".pub"]. A second call with another
    pair succeeds as well and leaves exactly the second pair's contents
    in both files. *)
Theorem save_keypair_force_replaces (E : env) (kp1 kp2 : KeyPair) (p : path)
    (st : fs) :
  no_io_failures E -> p ∉ dirs st -> pubkey_path p ∉ dirs st ->
  let q := pubkey_path p in
  let st1 := mkFs (<[q := pk kp1]> (<[p := sk kp1]> (files st))) (dirs st) in
  run (save_keypair E kp1 p true) st =
    (Ok (canon E p, canon E q),
     mkWorld st1
       ((if bool_decide (is_Some (files st !! p)) then [EvRemove p] else [])
        ++ (if bool_decide (is_Some (files st !! q)) then [EvRemove q] else [])
        ++ [EvCreate p; EvWrite p; EvFlush p; EvCreate q; EvWrite q;
            EvFlush q; EvCanon p; EvCanon q])) /\
  run (save_keypair E kp2 p true) st1 =
    (Ok (canon E p, canon E q),
     mkWorld (mkFs (<[q := pk kp2]> (<[p := sk kp2]> (files st))) (dirs st))
       [EvRemove p; EvRemove q; EvCreate p; EvWrite p; EvFlush p;
        EvCreate q; EvWrite q; EvFlush q; EvCanon p; EvCanon q]).
Proof.
  intros Hio Hp Hq q st1.
  pose proof (pubkey_path_ne p) as Hne. fold q in Hne.
  split.
  - unfold run. rewrite save_keypair_run by auto. reflexivity.
  - unfold run. rewrite save_keypair_run by (simpl; auto). simpl. fold q.
    rewrite (lookup_insert_ne _ q p) by congruence.
    rewrite !lookup_insert_eq.
    rewrite !bool_decide_eq_true_2 by eauto. simpl.
    do 3 f_equal. apply map_eq. intros i.
    destruct (decide (i = q)); [subst; rewrite !lookup_insert_eq; reflexivity|].
    rewrite !(lookup_insert_ne _ q i) by congruence.
    destruct (decide (i = p)); [subst; rewrite !lookup_insert_eq; reflexivity|].
    rewrite !lookup_insert_ne by congruence. reflexivity.
Qed.

(** C1 (as amended): for a path with no file name,
    [sign_file_with_secret_key] never opens [path] and never signs, and
    each outcome has its condition. When the [.sig] file cannot be
    created it fails with [IoWithPath] naming the [.sig] file and does
    nothing else. Otherwise it creates (or truncates) the [.sig] file and
    reads the clock: for a clock before the epoch it fails with
    [SystemTime], and else with [FailedToExtractFilename(path)]; in both
    cases an empty [.sig] file is left behind. *)
Theorem sign_without_file_name (E : env) (SK SB : Type)
    (msign : SK -> bytes -> bytes -> bytes -> SB) (tostr : SB -> bytes)
    (secret : SK) (p : path) (st : fs) :
  file_name p = None ->
  let sp := signature_path_of p in
  let rw := sign_run E SK SB msign tostr secret p st in
  let st1 := mkFs (<[sp := []]> (files st)) (dirs st) in
  ((io_fails E OpCreate sp = true \/ sp ∈ dirs st) ->
     exists e, rw = (Err (IoWithPath sp e), mkWorld st [EvCreate sp])) /\
  (io_fails E OpCreate sp = false -> sp ∉ dirs st -> clock_nanos E < 0 ->
     rw = (Err SystemTime, mkWorld st1 [EvCreate sp; EvClock])) /\
  (io_fails E OpCreate sp = false -> sp ∉ dirs st -> 0 <= clock_nanos E ->
     rw = (Err (FailedToExtractFilename p), mkWorld st1 [EvCreate sp; EvClock])).
Proof.
  intros Hn sp rw st1. subst sp rw st1.
  destruct st as [m d]. unfold sign_run. unfold_sign. split; [|split].
  - intros Hf. destruct (io_fails E OpCreate (signature_path_of p)); simpl; [eauto|].
    destruct Hf as [Hf|Hf]; [discriminate|].
    rewrite bool_decide_eq_true_2 by exact Hf. simpl. eauto.
  - intros Hc Hd Hclk. rewrite Hc, bool_decide_eq_false_2 by exact Hd. simpl.
    rewrite (proj2 (Z.ltb_lt _ _) Hclk). reflexivity.
  - intros Hc Hd Hclk. rewrite Hc, bool_decide_eq_false_2 by exact Hd. simpl.
    rewrite (proj2 (Z.ltb_ge _ _) Hclk). simpl. rewrite Hn. reflexivity.
Qed.

(** C9: when [sign_file_with_secret_key] fails with
    [FailedToExtractFilename], or fails right after trying to open
    [path] for reading, the [.sig] file has already been created or
    truncated: an empty signature file is left at the signature path. *)
Theorem sign_failure_leaves_empty_sig (E : env) (SK SB : Type)
    (msign : SK -> bytes -> bytes -> bytes -> SB) (tostr : SB -> bytes)
    (secret : SK) (p : path) (st : fs) :
  let rw := sign_run E SK SB msign tostr secret p st in
  (fst rw = Err (FailedToExtractFilename p) \/
   (exists e, fst rw = Err e /\ last (w_trace (snd rw)) = Some (EvOpenRead p))) ->
  files (w_fs (snd rw)) !! signature_path_of p = Some [].
Proof.
  intros rw. subst rw.
  pose proof (signature_path_ne p) as Hne.
  destruct st as [m d]. unfold sign_run. unfold_sign.
  split_run; try (rewrite lookup_insert_eq; reflexivity).
  all: intros [Hf|[ee [Hr Hl]]]; simplify_eq/=.
Qed.

(** C4: every successful call read a file name [name] from [path], read
    the clock at or after the epoch and the contents [c] of [path], and
    its result is the base64 text of the signature box that minisign
    produced over [c] with the trusted comment
    [timestamp:<secs>\tfile:<name>], [secs] being the clock in whole
    seconds, written as a non-empty run of decimal digits, and [name]
    taken through the lossy UTF-8 conversion (the identity on a valid
    UTF-8 name such as [app.exe]). That text is also the contents of
    the [.sig] file. *)
Theorem sign_trusted_comment (E : env) (SK SB : Type)
    (msign : SK -> bytes -> bytes -> bytes -> SB) (tostr : SB -> bytes)
    (secret : SK) (p : path) (st : fs) (sp : path) (enc : bytes) (w : world) :
  sign_run E SK SB msign tostr secret p st = (Ok (sp, enc), w) ->
  exists name c,
    let secs := clock_nanos E / nanos_per_sec in
    file_name p = Some name /\ files st !! p = Some c /\
    0 <= clock_nanos E /\
    enc = b64_encode (tostr (msign secret c
            (lit "timestamp:" ++ display_u64 secs ++ [9] ++ lit "file:" ++
             to_string_lossy name) untrusted_comment)) /\
    decimal_digits (display_u64 secs) = true /\
    (utf8_valid name = true -> to_string_lossy name = name) /\
    files (w_fs w) !! signature_path_of p = Some enc.
Proof.
  pose proof (signature_path_ne p) as Hne.
  destruct st as [m d]. unfold sign_run. unfold_sign.
  split_run; intros Hrun; simplify_eq/=.
  do 2 eexists. cbv zeta.
  split; [reflexivity|].
  split; [rewrite <- (lookup_insert_ne m (signature_path_of p) p []) by congruence; eassumption|].
  split; [apply Z.ltb_ge; assumption|]. split; [reflexivity|].
  split; [apply display_u64_digits|]. split; [apply lossy_valid|].
  rewrite !lookup_insert_eq. reflexivity.
Qed.

(** C7: with a readable [path] that has a file name, a clock after the
    epoch and no failing system call, [sign_file_with_secret_key]
    succeeds and the [.sig] file holds exactly the returned encoded
    signature, whatever it held before. Signing twice in a row succeeds
    both times and the second signature replaces the first. *)
Theorem sign_twice_overwrites (E1 E2 : env) (SK SB : Type)
    (msign : SK -> bytes -> bytes -> bytes -> SB) (tostr : SB -> bytes)
    (secret : SK) (p : path) (st : fs) (name c : bytes) :
  no_io_failures E1 -> no_io_failures E2 ->
  0 <= clock_nanos E1 -> 0 <= clock_nanos E2 ->
  signature_path_of p ∉ dirs st -> file_name p = Some name ->
  files st !! p = Some c ->
  let sp := signature_path_of p in
  let s1 := expected_signature E1 SK SB msign tostr secret c name in
  let s2 := expected_signature E2 SK SB msign tostr secret c name in
  let st1 := mkFs (<[sp := s1]> (files st)) (dirs st) in
  fst (sign_run E1 SK SB msign tostr secret p st) = Ok (canon E1 sp, s1) /\
  w_fs (snd (sign_run E1 SK SB msign tostr secret p st)) = st1 /\
  fst (sign_run E2 SK SB msign tostr secret p st1) = Ok (canon E2 sp, s2) /\
  w_fs (snd (sign_run E2 SK SB msign tostr secret p st1)) =
    mkFs (<[sp := s2]> (files st)) (dirs st).
Proof.
  intros Hio1 Hio2 Hc1 Hc2 Hd Hn Hc sp s1 s2 st1.
  pose proof (signature_path_ne p) as Hne.
  rewrite (sign_run_ok E1 SK SB msign tostr secret p st name c) by assumption.
  rewrite (sign_run_ok E2 SK SB msign tostr secret p st1 name c);
    [| assumption | assumption | exact Hd | exact Hn |].
  - simpl. repeat split. fold sp. rewrite insert_insert_eq. reflexivity.
  - simpl. unfold sp. rewrite lookup_insert_ne by congruence. exact Hc.
Qed.

(** C10: the file name needs not be valid UTF-8: signing still succeeds
    and the trusted comment carries the lossy conversion of the name
    (the identity on valid UTF-8); on an invalid name such as the bytes
    [a\xFF] the comment's name differs from the name on disk. *)
Theorem sign_lossy_file_name (E : env) (SK SB : Type)
    (msign : SK -> bytes -> bytes -> bytes -> SB) (tostr : SB -> bytes)
    (secret : SK) (p : path) (st : fs) (name c : bytes) :
  no_io_failures E -> 0 <= clock_nanos E ->
  signature_path_of p ∉ dirs st -> file_name p = Some name ->
  files st !! p = Some c ->
  fst (sign_run E SK SB msign tostr secret p st) =
    Ok (canon E (signature_path_of p),
        b64_encode (tostr (msign secret c
          (trusted_comment (clock_nanos E / nanos_per_sec)
             (to_string_lossy name)) untrusted_comment))) /\
  (utf8_valid name = true -> to_string_lossy name = name) /\
  (utf8_valid [97; 255] = false /\
   to_string_lossy [97; 255] = [97; 239; 191; 189]).
Proof.
  intros Hio Hclk Hd Hn Hc.
  rewrite (sign_run_ok E SK SB msign tostr secret p st name c) by assumption.
  split; [reflexivity|]. split; [apply lossy_valid|]. split; reflexivity.
Qed.


(** C3 (failing inputs): a failing write of the secret key (full disk)
    comes back as [Io] with no path; a failing [canonicalize] of the
    [.sig] file comes back as [IoWithPath] naming the signed file, not
    the [.sig] file. *)
Theorem io_errors_lose_path :
  fst (run (save_keypair env_disk_full kp1 (lit "key") false) st_empty) =
    Err (Io (OsError OpWrite)) /\
  fst (sign_run env_canon_fails unit bytes demo_sign id tt (lit "app.exe") st_app) =
    Err (IoWithPath (lit "app.exe") (OsError OpCanon)).
Proof. split; vm_compute; reflexivity. Qed.

(** C1 (counterexample): whatever the [.sig] path, a run that fails
    with [FailedToExtractFilename] has already created the [.sig] file
    and read the clock; signing the root path, which has no file name,
    is such a run. *)
Theorem sign_root_after_clock :
  (forall (E : env) (SK SB : Type) (msign : SK -> bytes -> bytes -> bytes -> SB)
          (tostr : SB -> bytes) (secret : SK) (p : path) (st : fs),
     fst (sign_run E SK SB msign tostr secret p st) = Err (FailedToExtractFilename p) ->
     w_trace (snd (sign_run E SK SB msign tostr secret p st)) =
       [EvCreate (signature_path_of p); EvClock]) /\
  file_name (lit "/") = None /\
  fst (sign_run env_ok unit bytes demo_sign id tt (lit "/") st_empty) =
    Err (FailedToExtractFilename (lit "/")) /\
  In EvClock (w_trace (snd (sign_run env_ok unit bytes demo_sign id tt (lit "/") st_empty))).
Proof.
  split.
  - intros E SK SB msign tostr secret p [m d]. unfold sign_run. unfold_sign.
    split_run; intros Hr; simplify_eq/=; reflexivity.
  - vm_compute. repeat split; auto.
Qed.

(** C2 (counterexample): a secret-key file [keys/key] that exists under
    a directory [keys] the user cannot search. [Path::exists] reports
    [false] since its [stat] fails, so [save_keypair] with
    [force = false] does not fail with [SigningKeyExists]: it goes on
    and fails with [IoWithPath] when creating the file. *)
Theorem save_keypair_unsearchable_dir :
  is_Some (files st_keys !! lit "keys/key") /\
  run (save_keypair env_no_search kp2 (lit "keys/key") false) st_keys =
    (Err (IoWithPath (lit "keys/key") (OsError OpCreate)),
     mkWorld st_keys [EvCreate (lit "keys/key")]).
Proof. split; vm_compute; [eexists; reflexivity | reflexivity]. Qed.

(* ------------------------------------------------------------------ *)
(** ** The claims at concrete inputs *)

Lemma save_keypair_no_force_witness :
  run (save_keypair env_ok kp1 (lit "app.exe") false) st_app =
    (Err (SigningKeyExists (lit "app.exe")), mkWorld st_app []).
Proof.
  apply save_keypair_no_force; [reflexivity|]. left. vm_compute. eexists. reflexivity.
Defined.

Lemma save_keypair_force_replaces_witness :
  let q := pubkey_path (lit "key") in
  let st1 := mkFs (<[q := pk kp1]> (<[lit "key" := sk kp1]> (files st_empty)))
                  (dirs st_empty) in
  fst (run (save_keypair env_ok kp2 (lit "key") true) st1) =
    Ok (canon env_ok (lit "key"), canon env_ok q) /\
  w_fs (snd (run (save_keypair env_ok kp2 (lit "key") true) st1)) =
    mkFs (<[q := pk kp2]> (<[lit "key" := sk kp2]> (files st_empty)))
         (dirs st_empty).
Proof.
  intros q st1.
  destruct (save_keypair_force_replaces env_ok kp1 kp2 (lit "key") st_empty
              ltac:(intros ? ?; reflexivity)
              ltac:(vm_compute; set_solver) ltac:(vm_compute; set_solver))
    as [_ H2].
  cbv zeta in H2. split;
    [exact (f_equal fst H2) | exact (f_equal (fun rw => w_fs (snd rw)) H2)].
Defined.

Lemma sign_without_file_name_witness :
  sign_run env_ok unit bytes demo_sign id tt (lit "/") st_empty =
    (Err (FailedToExtractFilename (lit "/")),
     mkWorld (mkFs (<[signature_path_of (lit "/") := []]> (files st_empty)) (dirs st_empty))
       [EvCreate (signature_path_of (lit "/")); EvClock]).
Proof.
  destruct (sign_without_file_name env_ok unit bytes demo_sign id tt (lit "/")
              st_empty ltac:(vm_compute; reflexivity)) as (_ & _ & H).
  apply H.
  - reflexivity.
  - set_solver.
  - simpl. lia.
Defined.

Lemma sign_failure_leaves_empty_sig_witness :
  files (w_fs (snd (sign_run env_ok unit bytes demo_sign id tt (lit "/") st_empty)))
    !! lit "/.sig" = Some [].
Proof.
  apply (sign_failure_leaves_empty_sig env_ok unit bytes demo_sign id tt
           (lit "/") st_empty).
  left. vm_compute. reflexivity.
Defined.

Lemma sign_trusted_comment_witness :
  exists name c,
    file_name (lit "app.exe") = Some name /\ files st_app !! lit "app.exe" = Some c /\
    b64_encode (lit "timestamp:1700000000" ++ [9] ++ lit "file:app.exe" ++ lit "MZ") =
    b64_encode (id (demo_sign tt c
      (lit "timestamp:" ++ display_u64 (clock_nanos env_ok / nanos_per_sec) ++ [9] ++
       lit "file:" ++ to_string_lossy name) untrusted_comment)).
Proof.
  destruct (sign_trusted_comment env_ok unit bytes demo_sign id tt (lit "app.exe")
              st_app (lit "app.exe.sig")
              (b64_encode (lit "timestamp:1700000000" ++ [9] ++ lit "file:app.exe" ++ lit "MZ"))
              (snd (sign_run env_ok unit bytes demo_sign id tt (lit "app.exe") st_app))
              ltac:(vm_compute; reflexivity))
    as (name & c & Hn & Hc & _ & Henc & _).
  exists name, c. split; [exact Hn|]. split; [exact Hc|]. exact Henc.
Defined.

Lemma sign_twice_overwrites_witness :
  let sp := signature_path_of (lit "app.exe") in
  let st1 := mkFs (<[sp := expected_signature env_ok unit bytes demo_sign id tt
                             (lit "MZ") (lit "app.exe")]> (files st_app))
                  (dirs st_app) in
  w_fs (snd (sign_run env_later unit bytes demo_sign id tt (lit "app.exe") st1)) =
    mkFs (<[sp := expected_signature env_later unit bytes demo_sign id tt
                    (lit "MZ") (lit "app.exe")]> (files st_app)) (dirs st_app).
Proof.
  destruct (sign_twice_overwrites env_ok env_later unit bytes demo_sign id tt
              (lit "app.exe") st_app (lit "app.exe") (lit "MZ")
              ltac:(intros ? ?; reflexivity) ltac:(intros ? ?; reflexivity)
              ltac:(vm_compute; discriminate) ltac:(vm_compute; discriminate)
              ltac:(vm_compute; set_solver) ltac:(vm_compute; reflexivity)
              ltac:(vm_compute; reflexivity))
    as (_ & _ & _ & H4).
  exact H4.
Defined.

Lemma sign_lossy_file_name_witness :
  fst (sign_run env_ok unit bytes demo_sign id tt odd_name st_odd) =
    Ok (odd_name ++ lit ".sig",
        b64_encode (trusted_comment 1700000000 [97; 239; 191; 189] ++ lit "MZ")).
Proof.
  destruct (sign_lossy_file_name env_ok unit bytes demo_sign id tt odd_name st_odd
              [97; 255] (lit "MZ")
              ltac:(intros ? ?; reflexivity) ltac:(vm_compute; discriminate)
              ltac:(vm_compute; set_solver) ltac:(vm_compute; reflexivity)
              ltac:(vm_compute; reflexivity))
    as [H _].
  rewrite H. vm_compute. reflexivity.
Defined.

(* ------------------------------------------------------------------ *)
(** ** Frames of the I/O actions *)

Section Frames.
Variable ps : list path.

Lemma frames_bind {A B} (m : IO A) (k : A -> IO B) :
  frames ps m -> (forall a, frames ps (k a)) -> frames ps (bind m k).
Proof.
  intros Hm Hk w. specialize (Hm w). unfold bind.
  destruct (m w) as [[a|e] w']; simpl in *; [|exact Hm].
  destruct Hm as [Hd Hf]. destruct (Hk a w') as [Hd' Hf'].
  split; [congruence|]. intros q Hq. rewrite Hf', Hf; auto.
Qed.

Lemma frames_id {A} (m : IO A) :
  (forall w, w_fs (snd (m w)) = w_fs w) -> frames ps m.
Proof. intros H w. rewrite H. auto. Qed.

Lemma frames_ret {A} (a : A) : frames ps (ret a).
Proof. apply frames_id. reflexivity. Qed.
Lemma frames_throw {A} (e : Error) : frames ps (@throw A e).
Proof. apply frames_id. reflexivity. Qed.
Lemma frames_lift {A} (r : result A) : frames ps (lift r).
Proof. apply frames_id. reflexivity. Qed.
Lemma frames_log (ev : event) : frames ps (log ev).
Proof. apply frames_id. reflexivity. Qed.
Lemma frames_path_exists (E : env) (p : path) : frames ps (path_exists E p).
Proof. apply frames_id. reflexivity. Qed.

Lemma frames_map_err {A} (f : Error -> Error) (m : IO A) :
  frames ps m -> frames ps (map_err f m).
Proof.
  intros Hm w. specialize (Hm w). unfold map_err.
  destruct (m w) as [[a|e] w']; exact Hm.
Qed.

Lemma frames_try_with_path {A} (p : path) (m : IO (result A)) :
  frames ps m -> frames ps (try_with_path p m).
Proof.
  intros Hm. apply frames_map_err. apply frames_bind; [exact Hm|].
  intros; apply frames_lift.
Qed.

Lemma frames_try_io {A} (m : IO (result A)) :
  frames ps m -> frames ps (try_io m).
Proof. intros Hm. apply frames_bind; [exact Hm|]. intros; apply frames_lift. Qed.

Section Env.
Variable E : env.

Lemma frames_remove_file (p : path) : p ∈ ps -> frames ps (remove_file E p).
Proof.
  intros Hp w. destruct w as [[m d] tr].
  unfold remove_file, bind, log, get_fs, set_files, ret; simpl.
  repeat case_match; simpl; (split; [reflexivity|]); intros q Hq; try reflexivity.
  rewrite lookup_delete_ne; [reflexivity|]. intros ->. contradiction.
Qed.

Lemma frames_create_file (p : path) : p ∈ ps -> frames ps (create_file E p).
Proof.
  intros Hp w. destruct w as [[m d] tr].
  unfold create_file, bind, log, get_fs, set_files, ret, throw; simpl.
  repeat case_match; simpl; (split; [reflexivity|]); intros q Hq; try reflexivity.
  rewrite lookup_insert_ne; [reflexivity|]. intros ->. contradiction.
Qed.

Lemma frames_bind_create_file {B} (p : path) (k : path -> IO B) :
  p ∈ ps -> frames ps (k p) -> frames ps (bind (create_file E p) k).
Proof.
  intros Hp Hk w. destruct w as [[m d] tr].
  unfold create_file, bind, log, get_fs, set_files, ret, throw; simpl.
  destruct (io_fails E OpCreate p); simpl; [split; auto|].
  destruct (bool_decide (p ∈ d)); simpl; [split; auto|].
  destruct (Hk (mkWorld (mkFs (<[p:=[]]> m) d) (tr ++ [EvCreate p])))
    as [Hd Hf]; simpl in *.
  split; [exact Hd|]. intros q Hq. rewrite Hf by exact Hq.
  rewrite lookup_insert_ne; [reflexivity|]. intros ->. contradiction.
Qed.

Lemma frames_write_bytes (p : path) (s : bytes) :
  p ∈ ps -> frames ps (write_bytes E p s).
Proof.
  intros Hp w. destruct w as [[m d] tr].
  unfold write_bytes, bind, log, get_fs, set_files, ret; simpl.
  repeat case_match; simpl; (split; [reflexivity|]); intros q Hq; try reflexivity.
  rewrite lookup_insert_ne; [reflexivity|]. intros ->. contradiction.
Qed.

Lemma frames_flush (p : path) : frames ps (flush E p).
Proof.
  apply frames_id. intros w. unfold flush, bind, log, ret. simpl.
  case_match; reflexivity.
Qed.

Lemma frames_open_read (p : path) : frames ps (open_read E p).
Proof.
  apply frames_id. intros w. unfold open_read, bind, log, get_fs, ret. simpl.
  repeat case_match; reflexivity.
Qed.

Lemma frames_canonicalize (p : path) : frames ps (canonicalize E p).
Proof.
  apply frames_id. intros w. unfold canonicalize, bind, log, get_fs, ret. simpl.
  repeat case_match; reflexivity.
Qed.

Lemma frames_since_epoch_secs : frames ps (since_epoch_secs E).
Proof.
  apply frames_id. intros w. unfold since_epoch_secs, bind, log, ret, throw. simpl.
  case_match; reflexivity.
Qed.

Lemma frames_minisign_sign_reader (SK SB : Type)
    (msign : SK -> bytes -> bytes -> bytes -> SB) (secret : SK) (p : path)
    (c : option bytes) (tc : bytes) :
  frames ps (minisign_sign_reader E SK SB msign secret p c tc).
Proof.
  apply frames_id. intros w. unfold minisign_sign_reader, bind, log, ret, throw.
  simpl. repeat case_match; reflexivity.
Qed.

End Env.
End Frames.

Ltac frame_tac :=
  repeat first
    [ progress cbv zeta
    | apply frames_bind_create_file; [set_solver|]
    | apply frames_remove_file; set_solver
    | apply frames_create_file; set_solver
    | apply frames_write_bytes; set_solver
    | apply frames_ret | apply frames_throw | apply frames_lift
    | apply frames_log | apply frames_path_exists
    | apply frames_try_with_path | apply frames_try_io
    | apply frames_flush | apply frames_open_read | apply frames_canonicalize
    | apply frames_since_epoch_secs | apply frames_minisign_sign_reader
    | apply frames_bind; [|intros]
    | progress case_match ].

(** [save_keypair] changes no file other than [path] and its [.pub]
    file, whatever happens during the call (errors included). *)
Theorem save_keypair_frame (E : env) (kp : KeyPair) (p : path) (force : bool)
    (st : fs) :
  let w := snd (run (save_keypair E kp p force) st) in
  forall q, q <> p -> q <> pubkey_path p -> files (w_fs w) !! q = files st !! q.
Proof.
  assert (H : frames [p; pubkey_path p] (save_keypair E kp p force))
    by (unfold save_keypair; frame_tac).
  cbv zeta. destruct (H (mkWorld st [])) as [_ Hf].
  intros q Hq1 Hq2. apply Hf. set_solver.
Qed.

(** [sign_file_with_secret_key] changes no file other than the [.sig]
    file, in particular never the signed file, whatever happens during
    the call (errors included). *)
Theorem sign_file_with_secret_key_frame (E : env) (SK SB : Type)
    (msign : SK -> bytes -> bytes -> bytes -> SB) (tostr : SB -> bytes)
    (secret : SK) (p : path) (st : fs) :
  let w := snd (sign_run E SK SB msign tostr secret p st) in
  forall q, q <> signature_path_of p -> files (w_fs w) !! q = files st !! q.
Proof.
  assert (H : frames [signature_path_of p]
                (sign_file_with_secret_key E SK SB msign tostr secret p))
    by (unfold sign_file_with_secret_key; frame_tac).
  cbv zeta. destruct (H (mkWorld st [])) as [_ Hf].
  intros q Hq. apply Hf. set_solver.
Qed.

(** The lossy conversion always yields valid UTF-8. *)
Lemma lossy_utf8 (l : bytes) : utf8_valid (to_string_lossy l) = true.
Proof.
  remember (length l) as n eqn:Hn. revert l Hn.
  induction n as [n IH] using lt_wf_ind. intros l Hn; subst n.
  destruct l as [|b0 r]; [reflexivity|].
  cbn [to_string_lossy].
  repeat case_match; subst;
  repeat match goal with
  | |- context [to_string_lossy ?x] =>
      let Hx := fresh "Hx" in
      pose proof (IH (length x) ltac:(simpl; lia) x eq_refl) as Hx;
      let t := fresh "t" in
      remember (to_string_lossy x) as t eqn:Ht; clear Ht
  end;
  repeat match goal with
  | H : negb _ = true |- _ => apply negb_true_iff in H
  | H : negb _ = false |- _ => apply negb_false_iff in H
  end;
  simpl;
  repeat match goal with
  | H : ?x = _ |- context [?x] => progress rewrite H
  end; simpl; rewrite ?andb_true_r; try reflexivity; try assumption.
Qed.

(** The public-key path [format!("{}.pub", path.display())] is the
    path followed by [.pub] exactly when the path is valid UTF-8. *)
Theorem pubkey_path_utf8 (p : path) :
  pubkey_path p = p ++ lit ".pub" <-> utf8_valid p = true.
Proof.
  unfold pubkey_path, display. split.
  - intros H. apply app_inv_tail in H. rewrite <- H. apply lossy_utf8.
  - intros H. rewrite lossy_valid by exact H. reflexivity.
Qed.

(** For a path that is not valid UTF-8, a successful [save_keypair]
    writes the public key to the lossily displayed name followed by
    [.pub]; the file named by the path's own bytes followed by [.pub]
    is left as it was. *)
Theorem save_keypair_non_utf8_path (E : env) (kp : KeyPair) (p : path)
    (force : bool) (st : fs) :
  no_io_failures E -> p ∉ dirs st -> pubkey_path p ∉ dirs st ->
  (is_Some (files st !! p) -> force = true) -> utf8_valid p = false ->
  let w := snd (run (save_keypair E kp p force) st) in
  fst (run (save_keypair E kp p force) st) = Ok (canon E p, canon E (pubkey_path p)) /\
  files (w_fs w) !! p = Some (sk kp) /\
  files (w_fs w) !! pubkey_path p = Some (pk kp) /\
  files (w_fs w) !! (p ++ lit ".pub") = files st !! (p ++ lit ".pub").
Proof.
  intros Hio Hp Hq Hf Hv w. subst w.
  pose proof (pubkey_path_ne p) as Hne.
  assert (Hne2 : pubkey_path p <> p ++ lit ".pub").
  { unfold pubkey_path, display. intros H. apply app_inv_tail in H.
    apply (f_equal utf8_valid) in H. rewrite lossy_utf8 in H. congruence. }
  assert (Hne3 : p <> p ++ lit ".pub").
  { intros H. apply (f_equal (@length Z)) in H.
    rewrite length_app in H. simpl in H. lia. }
  unfold run. rewrite save_keypair_run by auto. cbn [fst snd w_fs files].
  split; [reflexivity|]. split; [|split].
  - rewrite lookup_insert_ne by congruence. apply lookup_insert_eq.
  - apply lookup_insert_eq.
  - rewrite !lookup_insert_ne by congruence. reflexivity.
Qed.

(** With [force = false] and no secret-key file at [path],
    [save_keypair] succeeds: it removes an existing [.pub] file, writes
    the secret key to [path] and the public key to the [.pub] path, and
    returns both canonical paths. *)
Theorem save_keypair_fresh_path (E : env) (kp : KeyPair) (p : path) (st : fs) :
  no_io_failures E -> files st !! p = None -> p ∉ dirs st ->
  pubkey_path p ∉ dirs st ->
  let q := pubkey_path p in
  run (save_keypair E kp p false) st =
    (Ok (canon E p, canon E q),
     mkWorld (mkFs (<[q := pk kp]> (<[p := sk kp]> (files st))) (dirs st))
       ((if bool_decide (is_Some (files st !! q)) then [EvRemove q] else [])
        ++ [EvCreate p; EvWrite p; EvFlush p; EvCreate q; EvWrite q;
            EvFlush q; EvCanon p; EvCanon q])).
Proof.
  intros Hio Hn Hp Hq q.
  unfold run. rewrite save_keypair_run.
  - rewrite bool_decide_eq_false_2 by (rewrite Hn; intros [? ?]; discriminate).
    reflexivity.
  - exact Hio.
  - exact Hp.
  - exact Hq.
  - rewrite Hn. intros [? ?]; discriminate.
Qed.

(** With [force = true] on a [path] that is a directory,
    [save_keypair] fails with [IoWithPath(path, IsADirectory)] from
    [remove_file] and leaves the file system as it was. *)
Theorem save_keypair_force_on_dir (E : env) (kp : KeyPair) (p : path) (st : fs) :
  io_fails E OpStat p = false -> io_fails E OpRemove p = false -> p ∈ dirs st ->
  run (save_keypair E kp p true) st =
    (Err (IoWithPath p IsADirectory), mkWorld st [EvRemove p]).
Proof.
  intros Hstat Hio Hd.
  unfold run, save_keypair, path_exists, try_with_path, try_io, map_err, lift,
    remove_file, log, get_fs, set_files, bind, ret, throw; simpl.
  rewrite Hstat. simpl.
  rewrite (bool_decide_eq_true_2 (is_Some _ \/ p ∈ dirs st)) by (right; exact Hd).
  simpl. rewrite Hio. rewrite (bool_decide_eq_true_2 (p ∈ dirs st)) by exact Hd.
  destruct st; reflexivity.
Qed.

(** When the [.sig] file cannot be created (a failing [create_file]
    or a directory in its place), [sign_file_with_secret_key] fails with
    [IoWithPath] naming the [.sig] path, performs no other system call
    and leaves the file system as it was. *)
Theorem sign_create_sig_fails (E : env) (SK SB : Type)
    (msign : SK -> bytes -> bytes -> bytes -> SB) (tostr : SB -> bytes)
    (secret : SK) (p : path) (st : fs) :
  let sp := signature_path_of p in
  (io_fails E OpCreate sp = true \/ sp ∈ dirs st) ->
  exists e, sign_run E SK SB msign tostr secret p st =
              (Err (IoWithPath sp e), mkWorld st [EvCreate sp]).
Proof.
  intros sp Hf. subst sp. destruct st as [m d]. unfold sign_run. unfold_sign.
  destruct (io_fails E OpCreate (signature_path_of p)); simpl; [eauto|].
  destruct Hf as [Hf|Hf]; [discriminate|].
  rewrite bool_decide_eq_true_2 by exact Hf. simpl. eauto.
Qed.

(** Signing a directory that has a file name: the [.sig] file is
    created empty, the directory opens, and the read of the signer fails
    with a minisign I/O error; the empty [.sig] file stays. *)
Theorem sign_directory_fails (E : env) (SK SB : Type)
    (msign : SK -> bytes -> bytes -> bytes -> SB) (tostr : SB -> bytes)
    (secret : SK) (p : path) (st : fs) (name : bytes) :
  no_io_failures E -> 0 <= clock_nanos E ->
  signature_path_of p ∉ dirs st -> file_name p = Some name ->
  p ∈ dirs st -> files st !! p = None ->
  sign_run E SK SB msign tostr secret p st =
    (Err (Minisign MinisignIo),
     mkWorld (mkFs (<[signature_path_of p := []]> (files st)) (dirs st))
       [EvCreate (signature_path_of p); EvClock; EvOpenRead p; EvSign]).
Proof.
  intros Hio Hclk Hd Hn Hp Hc.
  pose proof (signature_path_ne p) as Hne.
  destruct st as [m d]; simpl in *.
  unfold sign_run. unfold_sign.
  repeat first [ rewrite Hio | rewrite bool_decide_eq_false_2 by exact Hd
               | rewrite (proj2 (Z.ltb_ge _ _) Hclk) | rewrite Hn
               | rewrite lookup_insert_ne by congruence | rewrite Hc
               | rewrite bool_decide_eq_true_2 by exact Hp
               | progress simpl ].
  reflexivity.
Qed.

(** On success, the returned path is the canonical [.sig] path, the
    [.sig] file holds exactly the returned encoded signature, and
    [decode_base64] of it gives back the signature box string of the
    signed file's contents (box strings being UTF-8 text). *)
Theorem sign_output_decodes (E : env) (SK SB : Type)
    (msign : SK -> bytes -> bytes -> bytes -> SB) (tostr : SB -> bytes)
    (secret : SK) (p : path) (st : fs) (sp : path) (enc : bytes) (w : world) :
  (forall b, Forall is_byte (tostr b) /\ utf8_valid (tostr b) = true) ->
  sign_run E SK SB msign tostr secret p st = (Ok (sp, enc), w) ->
  sp = canon E (signature_path_of p) /\
  files (w_fs w) !! signature_path_of p = Some enc /\
  exists c tc, files st !! p = Some c /\
    decode_base64 enc = Ok (tostr (msign secret c tc untrusted_comment)).
Proof.
  intros Hs.
  pose proof (signature_path_ne p) as Hne.
  destruct st as [m d]. unfold sign_run. unfold_sign.
  split_run; intros Hrun; simplify_eq/=.
  split; [reflexivity|]. split; [rewrite !lookup_insert_eq; reflexivity|].
  do 2 eexists. split.
  - rewrite <- (lookup_insert_ne m (signature_path_of p) p []) by congruence.
    eassumption.
  - match goal with |- decode_base64 (b64_encode (tostr ?x)) = _ =>
      destruct (Hs x) as [Hb Hu] end.
    unfold decode_base64. rewrite b64_roundtrip by exact Hb. rewrite Hu.
    reflexivity.
Qed.

(** Both fields of a key pair returned by [generate_key] are accepted
    by [decode_base64], which gives back the public and secret key box
    strings (box strings being UTF-8 text). *)
Theorem generate_key_decodes (PK SKt PKB SKB : Type)
    (gen : option bytes -> minisign_error + PK * SKt)
    (pk_to_box : PK -> minisign_error + PKB) (sk_to_box : SKt -> minisign_error + SKB)
    (pks : PKB -> bytes) (sks : SKB -> bytes) (pw : option bytes) (kp : KeyPair) :
  (forall b, Forall is_byte (pks b) /\ utf8_valid (pks b) = true) ->
  (forall b, Forall is_byte (sks b) /\ utf8_valid (sks b) = true) ->
  generate_key PK SKt PKB SKB gen pk_to_box sk_to_box pks sks pw = Ok kp ->
  exists pkv skv pb sb,
    gen pw = inr (pkv, skv) /\ pk_to_box pkv = inr pb /\ sk_to_box skv = inr sb /\
    decode_base64 (pk kp) = Ok (pks pb) /\ decode_base64 (sk kp) = Ok (sks sb).
Proof.
  intros Hp Hs. unfold generate_key, rbind, minisign_try.
  destruct (gen pw) as [|[pkv skv]]; [discriminate|].
  destruct (pk_to_box pkv) as [|pb] eqn:Hpb; [discriminate|].
  destruct (sk_to_box skv) as [|sb] eqn:Hsb; [discriminate|].
  intros [= <-]. exists pkv, skv, pb, sb. simpl.
  destruct (Hp pb) as [Hp1 Hp2]. destruct (Hs sb) as [Hs1 Hs2].
  unfold decode_base64. rewrite !b64_roundtrip by assumption.
  rewrite Hp2, Hs2. auto.
Qed.

(* ------------------------------------------------------------------ *)
(** ** Further properties at concrete inputs *)

Lemma save_keypair_frame_witness :
  files (w_fs (snd (run (save_keypair env_ok kp1 (lit "key") true) st_app)))
    !! lit "app.exe" = Some (lit "MZ").
Proof.
  pose proof (save_keypair_frame env_ok kp1 (lit "key") true st_app) as Hf.
  cbv zeta in Hf. rewrite Hf; [vm_compute; reflexivity | vm_compute; discriminate | vm_compute; discriminate].
Defined.

Lemma sign_file_with_secret_key_frame_witness :
  files (w_fs (snd (sign_run env_ok unit bytes demo_sign id tt (lit "app.exe") st_app)))
    !! lit "app.exe" = Some (lit "MZ").
Proof.
  pose proof (sign_file_with_secret_key_frame env_ok unit bytes demo_sign id tt
              (lit "app.exe") st_app) as Hf.
  cbv zeta in Hf. rewrite Hf; [vm_compute; reflexivity | vm_compute; discriminate].
Defined.

Lemma save_keypair_non_utf8_path_witness :
  let w := snd (run (save_keypair env_ok kp1 odd_name false) st_empty) in
  fst (run (save_keypair env_ok kp1 odd_name false) st_empty) =
    Ok (canon env_ok odd_name, canon env_ok (pubkey_path odd_name)) /\
  files (w_fs w) !! odd_name = Some (sk kp1) /\
  files (w_fs w) !! pubkey_path odd_name = Some (pk kp1) /\
  files (w_fs w) !! (odd_name ++ lit ".pub") = files st_empty !! (odd_name ++ lit ".pub").
Proof.
  apply save_keypair_non_utf8_path.
  - intros op q. reflexivity.
  - set_solver.
  - set_solver.
  - intros [? H]. discriminate.
  - vm_compute. reflexivity.
Defined.

Lemma save_keypair_fresh_path_witness :
  let q := pubkey_path (lit "key") in
  run (save_keypair env_ok kp1 (lit "key") false) st_oldpub =
    (Ok (canon env_ok (lit "key"), canon env_ok q),
     mkWorld (mkFs (<[q := pk kp1]> (<[lit "key" := sk kp1]> (files st_oldpub)))
                   (dirs st_oldpub))
       ((if bool_decide (is_Some (files st_oldpub !! q)) then [EvRemove q] else [])
        ++ [EvCreate (lit "key"); EvWrite (lit "key"); EvFlush (lit "key");
            EvCreate q; EvWrite q; EvFlush q; EvCanon (lit "key"); EvCanon q])).
Proof.
  apply save_keypair_fresh_path.
  - intros op q. reflexivity.
  - vm_compute. reflexivity.
  - set_solver.
  - set_solver.
Defined.

Lemma save_keypair_force_on_dir_witness :
  run (save_keypair env_ok kp1 (lit "dist") true) st_dir =
    (Err (IoWithPath (lit "dist") IsADirectory), mkWorld st_dir [EvRemove (lit "dist")]).
Proof.
  apply save_keypair_force_on_dir.
  - reflexivity.
  - reflexivity.
  - vm_compute. reflexivity.
Defined.

Lemma sign_create_sig_fails_witness :
  exists e, sign_run env_ok unit bytes demo_sign id tt (lit "app.exe") st_sigdir =
    (Err (IoWithPath (signature_path_of (lit "app.exe")) e),
     mkWorld st_sigdir [EvCreate (signature_path_of (lit "app.exe"))]).
Proof.
  apply sign_create_sig_fails.
  right. vm_compute. reflexivity.
Defined.

Lemma sign_directory_fails_witness :
  sign_run env_ok unit bytes demo_sign id tt (lit "dist") st_dir =
    (Err (Minisign MinisignIo),
     mkWorld (mkFs (<[signature_path_of (lit "dist") := []]> (files st_dir)) (dirs st_dir))
       [EvCreate (signature_path_of (lit "dist")); EvClock; EvOpenRead (lit "dist"); EvSign]).
Proof.
  apply (sign_directory_fails env_ok unit bytes demo_sign id tt (lit "dist") st_dir
           (lit "dist")).
  - intros op q. reflexivity.
  - simpl. lia.
  - vm_compute. intros H. discriminate.
  - vm_compute. reflexivity.
  - vm_compute. reflexivity.
  - reflexivity.
Defined.

Lemma sign_output_decodes_witness :
  let r := sign_run env_ok unit bytes demo_sign demo_sig_string tt
             (lit "app.exe") st_app in
  canon env_ok (signature_path_of (lit "app.exe")) =
    canon env_ok (signature_path_of (lit "app.exe")) /\
  files (w_fs (snd r)) !! signature_path_of (lit "app.exe") =
    Some (b64_encode (demo_sig_string [])) /\
  exists c tc, files st_app !! lit "app.exe" = Some c /\
    decode_base64 (b64_encode (demo_sig_string [])) =
      Ok (demo_sig_string (demo_sign tt c tc untrusted_comment)).
Proof.
  apply (sign_output_decodes env_ok unit bytes demo_sign demo_sig_string tt
           (lit "app.exe") st_app).
  - intros b. split; [|vm_compute; reflexivity].
    unfold demo_sig_string. apply (bool_decide_unpack _). vm_compute. reflexivity.
  - vm_compute. reflexivity.
Defined.

Lemma generate_key_decodes_witness :
  exists pkv skv pb sb,
    demo_gen None = inr (pkv, skv) /\ demo_to_box pkv = inr pb /\ demo_to_box skv = inr sb /\
    decode_base64 (b64_encode demo_pk_box) = Ok (demo_pk_string pb) /\
    decode_base64 (b64_encode demo_sk_box) = Ok (demo_sk_string sb).
Proof.
  apply (generate_key_decodes unit unit unit unit demo_gen demo_to_box demo_to_box
           demo_pk_string demo_sk_string None
           (mkKeyPair (b64_encode demo_pk_box) (b64_encode demo_sk_box))).
  - intros b. split; [|vm_compute; reflexivity].
    unfold demo_pk_string. apply (bool_decide_unpack _). vm_compute. reflexivity.
  - intros b. split; [|vm_compute; reflexivity].
    unfold demo_sk_string. apply (bool_decide_unpack _). vm_compute. reflexivity.
  - reflexivity.
Defined.


